(** * MagPoseFactor: a magnetometer factor on a Pose2 or Pose3

    Shallow embedding of [gtsam_unstable/slam/MagPoseFactor.h].

    The header is a class template over the pose type [POSE]; everything it
    takes from [POSE], from Eigen and from the factor base class is an
    interface here (a type class), and the member functions of the header
    are functions over these interfaces.  Scalars ([double] in the header)
    are an interface too: the structural results below hold for every
    interpretation of the arithmetic, and the few results that need
    algebraic laws name them. *)

From stdpp Require Import base option list strings.
From Stdlib Require Import ZArith Lia.

Set Default Proof Using "Type".

(** ** Scalars and dense linear algebra *)

(** The operations on [double] the header (and the helpers it calls) use. *)
Class Scalar (F : Type) := {
  fzero : F;
  fadd : F → F → F;
  fsub : F → F → F;
  fopp : F → F;
  fmul : F → F → F;
  fabs : F → F;
  fleb : F → F → bool;
}.

(** [v.normalized()] of Eigen, used once, by the constructor. *)
Class Normalize (F : Type) := normalized : list F → list F.
Global Hint Mode Normalize ! : typeclass_instances.

(** A [Point] (Vector2 or Vector3) and a dynamic [Vector] are coefficient
    lists; a dynamic [Matrix] is the list of its rows. *)
Abbreviation Vector F := (list F) (only parsing).
Abbreviation Matrix F := (list (list F)) (only parsing).

Section linear_algebra.
Context {F : Type} `{!Scalar F}.

Definition vadd (u v : Vector F) : Vector F := zip_with fadd u v.
Definition vsub (u v : Vector F) : Vector F := zip_with fsub u v.
Definition vscale (k : F) (v : Vector F) : Vector F := fmul k <$> v.
Definition vzero (n : nat) : Vector F := replicate n fzero.

(** [Matrix::Zero(r, c)] *)
Definition Matrix_Zero (r c : nat) : Matrix F := replicate r (vzero c).

Definition mrows (M : Matrix F) : nat := length M.
Definition mcols (M : Matrix F) : nat :=
  match M with [] => 0 | row :: _ => length row end.

(** [M] has [r] rows of [c] coefficients each. *)
Definition has_shape (r c : nat) (M : Matrix F) : bool :=
  (length M =? r) && forallb (λ row, length row =? c) M.

(** [M(i, j)] *)
Definition coeff (M : Matrix F) (i j : nat) : option F :=
  row ← M !! i; row !! j.

(** Overwrite the coefficients of [dst] from column [j0] on with [src]. *)
Definition splice_row (j0 : nat) (src dst : list F) : list F :=
  take j0 dst ++ src ++ drop (j0 + length src) dst.

(** [M.block(i0, j0, r, c) = B].  Eigen asserts that the block lies inside
    [M] and that [B] has the block's shape; a failed assertion is [None]. *)
Definition block_assign (M : Matrix F) (i0 j0 r c : nat) (B : Matrix F)
    : option (Matrix F) :=
  if (i0 + r <=? mrows M) && (j0 + c <=? mcols M) && has_shape r c B then
    Some (take i0 M
          ++ zip_with (splice_row j0) B (take r (drop i0 M))
          ++ drop (i0 + r) M)
  else None.

(** The result the spec describes for a requested Jacobian: zero, except
    that the rows of [B] fill the columns from [j0] on, [n] columns wide. *)
Definition zero_padded (j0 n : nat) (B : Matrix F) : Matrix F :=
  (λ row, vzero j0 ++ row ++ vzero (n - (j0 + length row))) <$> B.

(** The spec's words for the comparison of two vectors: equal component by
    component, within an absolute tolerance. *)
Definition within_abs_tol (u v : Vector F) (tol : F) : Prop :=
  length u = length v
  ∧ ∀ i a b, u !! i = Some a → v !! i = Some b →
      fleb (fabs (fsub a b)) tol = true.

(** Modelled from the spec: [gtsam::equal_with_abs_tol] is defined in
    gtsam/base, outside this header; the spec describes it as "component-wise
    equal within a caller-supplied absolute tolerance". *)
Definition equal_with_abs_tol (u v : Vector F) (tol : F) : bool :=
  (length u =? length v)
  && forallb (λ ab, fleb (fabs (fsub ab.1 ab.2)) tol) (zip u v).
End linear_algebra.

(** ** What the header takes from its template parameter and base class *)

(** The pose concept ([GTSAM_CONCEPT_POSE_TYPE]): the members of [POSE],
    [POSE::Rotation] and their traits that the header refers to. *)
Class PoseType (F : Type) := {
  Pose : Type;
  Rot : Type;
  (** [Point::RowsAtCompileTime], [traits<POSE>::dimension],
      [traits<Rot>::dimension] *)
  MeasDim : nat;
  PoseDim : nat;
  RotDim : nat;
  (** [p.rotation()] *)
  rotation : Pose → Rot;
  (** [p.rotationInterval()] *)
  rotationInterval : Pose → nat * nat;
  (** [R1 * R2] *)
  compose : Rot → Rot → Rot;
  (** [R.unrotate(p, H1, boost::none)]: the rotated point and the Jacobian
      [H1] with respect to the rotation. *)
  unrotate : Rot → Vector F → Vector F * Matrix F;
}.

(** What the static types of a pose concept guarantee: a point has rows,
    the fixed-size results of [unrotate] have their sizes, and the rotation
    coordinates are coordinates of the pose. *)
Class PoseLaws {F : Type} `{!Scalar F} (P : PoseType F) : Prop := {
  MeasDim_pos : 0 < MeasDim;
  unrotate_length R v : length (unrotate R v).1 = MeasDim;
  unrotate_shape R v : has_shape MeasDim RotDim (unrotate R v).2 = true;
  rotation_fits p : (rotationInterval p).1 + RotDim ≤ PoseDim;
}.

(** The noise model held by the base class, through a shared pointer. *)
Class NoiseModel (F : Type) := {
  SharedNoiseModel : Type;
  (** [equals] of the noise model behind the pointer, null pointers included *)
  noise_equals : SharedNoiseModel → SharedNoiseModel → F → bool;
}.

(** [Key] is [std::uint64_t]. *)
Definition Key : Type := N.

Section factor.
Context {F : Type} `{!Scalar F, !Normalize F, !NoiseModel F}.
Context {P : PoseType F}.

(** The state of the base class [NoiseModelFactor1<POSE>]. *)
Record NoiseModelFactor1 : Type := {
  noiseModel_ : SharedNoiseModel;
  key_ : Key;
}.

Record MagPoseFactor : Type := {
  Base : NoiseModelFactor1;
  measured_ : Vector F;
  nM_ : Vector F;
  bias_ : Vector F;
  body_P_sensor_ : option Pose;
}.

(** A factor behind a [NonlinearFactor] reference is this class or some
    other class ([Other] stands for their objects). *)
Inductive NonlinearFactor (Other : Type) : Type :=
  | IsMagPoseFactor (f : MagPoseFactor)
  | IsOther (o : Other).
Global Arguments IsMagPoseFactor {Other} f.
Global Arguments IsOther {Other} o.

(** [dynamic_cast<const This*>(&expected)] *)
Definition dynamic_cast {Other} (expected : NonlinearFactor Other)
    : option MagPoseFactor :=
  match expected with
  | IsMagPoseFactor e => Some e
  | IsOther _ => None
  end.

(** The constructor. *)
Definition new (pose_key : Key) (measured : Vector F) (scale : F)
    (direction bias : Vector F) (model : SharedNoiseModel)
    (body_P_sensor : option Pose) : MagPoseFactor :=
  {| Base := {| noiseModel_ := model; key_ := pose_key |};
     measured_ := measured;
     nM_ := vscale scale (normalized direction);
     bias_ := bias;
     body_P_sensor_ := body_P_sensor |}.

(** The copy constructor, member by member. *)
Definition copy (f : MagPoseFactor) : MagPoseFactor :=
  {| Base := {| noiseModel_ := noiseModel_ (Base f); key_ := key_ (Base f) |};
     measured_ := measured_ f;
     nM_ := nM_ f;
     bias_ := bias_ f;
     body_P_sensor_ := body_P_sensor_ f |}.

Definition clone {Other} (f : MagPoseFactor) : NonlinearFactor Other :=
  IsMagPoseFactor (copy f).

(** Modelled from the spec: [NoiseModelFactor1::equals] is defined in
    gtsam/nonlinear, outside this header; the spec describes it as "same
    variable key, compatible noise model". *)
Definition Base_equals (b e : NoiseModelFactor1) (tol : F) : bool :=
  (key_ b =? key_ e)%N && noise_equals (noiseModel_ b) (noiseModel_ e) tol.

Definition equals {Other} (f : MagPoseFactor)
    (expected : NonlinearFactor Other) (tol : F) : bool :=
  match dynamic_cast expected with
  | Some e =>
      Base_equals (Base f) (Base e) tol
      && equal_with_abs_tol (measured_ f) (measured_ e) tol
      && equal_with_abs_tol (nM_ f) (nM_ e) tol
      && equal_with_abs_tol (bias_ f) (bias_ e) tol
  | None => false
  end.

(** The rotation [nRs] of the first statement of [evaluateError]. *)
Definition nRs (f : MagPoseFactor) (nPb : Pose) : Rot :=
  match body_P_sensor_ f with
  | Some bPs => compose (rotation nPb) (rotation bPs)
  | None => rotation nPb
  end.

(** [evaluateError(nPb, H)].  [H] is the caller's matrix when a Jacobian is
    requested; the result is the returned vector and the new content of
    that matrix.  [None] is a failed Eigen assertion. *)
Definition evaluateError (f : MagPoseFactor) (nPb : Pose)
    (H : option (Matrix F)) : option (Vector F * option (Matrix F)) :=
  let '(q, H_rot) := unrotate (nRs f nPb) (nM_ f) in
  let hx := vadd q (bias_ f) in
  H' ← match H with
       | Some _ =>
           let rot0 := (rotationInterval nPb).1 in
           Some <$> block_assign (Matrix_Zero MeasDim PoseDim)
                      0 rot0 MeasDim RotDim H_rot
       | None => Some None
       end;
  Some (vsub hx (measured_ f), H').

(** Two factors that differ at most in the sensor mount. *)
Definition same_but_mount (f g : MagPoseFactor) : Prop :=
  Base f = Base g ∧ measured_ f = measured_ g ∧ nM_ f = nM_ g
  ∧ bias_ f = bias_ g.

(** The public member functions of a constructed factor, as calls.  (The
    private [serialize] belongs to persistence and is not one of them.) *)
Inductive Call (Other : Type) : Type :=
  | call_clone
  | call_print (s : string)
  | call_equals (expected : NonlinearFactor Other) (tol : F)
  | call_evaluateError (nPb : Pose) (H : option (Matrix F)).

(** The factors there are after a call on [f]: [f] itself, which a const
    member function leaves as it is, and the copy that [clone] makes. *)
Definition after {Other} (c : Call Other) (f : MagPoseFactor)
    : list MagPoseFactor :=
  match c with
  | call_clone _ => [f; copy f]
  | _ => [f]
  end.

(** The factors that any sequence of calls obtains from [f]. *)
Inductive obtained_from {Other} (f : MagPoseFactor) : MagPoseFactor → Prop :=
  | obtained_refl : obtained_from f f
  | obtained_step g (c : Call Other) h :
      obtained_from f g → h ∈ after c g → obtained_from f h.
End factor.

Global Arguments NoiseModelFactor1 F {_}.
Global Arguments MagPoseFactor F {_} P.
Global Arguments NonlinearFactor F {_} P Other.
Global Arguments Call F {_} P Other.
Global Arguments call_clone {F _ P Other}.
Global Arguments call_print {F _ P Other} s.
Global Arguments call_equals {F _ P Other} expected tol.
Global Arguments call_evaluateError {F _ P Other} nPb H.

(** ** Instantiations of the template parameter

    The header says it is for a Pose2 or a Pose3 ("Could be a Vector2 or
    Vector3 depending on POSE").  Both are declared in gtsam/geometry, not in
    this header; the two pose types below stand for them where a concrete
    pose type is needed.  They take from the library what the header reads:
    the three dimensions, [rotationInterval], the product of rotations and
    [unrotate] with its Jacobian [H1]. *)

Section poses.
Context {F : Type} `{!Scalar F}.

(** [v(i)], for a point of the right size. *)
Definition at_ (v : Vector F) (i : nat) : F := default fzero (v !! i).

(** A planar rotation is a cosine and a sine ([Rot2]); it has one
    coordinate, the angle, so [traits<Rot2>::dimension] is 1 and [H1] of
    [Rot2::unrotate] is 2 x 1. *)
Record Rot2 : Type := { c_ : F; s_ : F }.
Record Pose2 : Type := { r2_ : Rot2; t2_ : F * F }.

Definition Rot2_compose (R1 R2 : Rot2) : Rot2 :=
  {| c_ := fsub (fmul (c_ R1) (c_ R2)) (fmul (s_ R1) (s_ R2));
     s_ := fadd (fmul (s_ R1) (c_ R2)) (fmul (c_ R1) (s_ R2)) |}.

Definition Rot2_unrotate (R : Rot2) (p : Vector F) : Vector F * Matrix F :=
  let qx := fadd (fmul (c_ R) (at_ p 0)) (fmul (s_ R) (at_ p 1)) in
  let qy := fadd (fmul (fopp (s_ R)) (at_ p 0)) (fmul (c_ R) (at_ p 1)) in
  ([qx; qy], [[qy]; [fopp qx]]).

(** Coordinates of a planar pose ([Pose2], dimension 3): x, y, then the
    angle, so [rotationInterval] is the pair (2, 2). *)
Definition PlanarPose : PoseType F :=
  {| Pose := Pose2; Rot := Rot2;
     MeasDim := 2; PoseDim := 3; RotDim := 1;
     rotation := r2_;
     rotationInterval := λ _, (2, 2);
     compose := Rot2_compose;
     unrotate := Rot2_unrotate |}.

(** A spatial rotation is a 3x3 matrix ([Rot3]), given by its rows; it has
    three coordinates and [H1] of [Rot3::unrotate] is 3 x 3. *)
Record Rot3 : Type := { row1 : F * F * F; row2 : F * F * F; row3 : F * F * F }.
Record Pose3 : Type := { R3_ : Rot3; t3_ : F * F * F }.

Definition dot3 (a b : F * F * F) : F :=
  fadd (fadd (fmul a.1.1 b.1.1) (fmul a.1.2 b.1.2)) (fmul a.2 b.2).

Definition col1 (R : Rot3) : F * F * F := ((row1 R).1.1, (row2 R).1.1, (row3 R).1.1).
Definition col2 (R : Rot3) : F * F * F := ((row1 R).1.2, (row2 R).1.2, (row3 R).1.2).
Definition col3 (R : Rot3) : F * F * F := ((row1 R).2, (row2 R).2, (row3 R).2).

Definition Rot3_compose (R S : Rot3) : Rot3 :=
  let row r := (dot3 r (col1 S), dot3 r (col2 S), dot3 r (col3 S)) in
  {| row1 := row (row1 R); row2 := row (row2 R); row3 := row (row3 R) |}.

Definition Rot3_unrotate (R : Rot3) (p : Vector F) : Vector F * Matrix F :=
  let v := (at_ p 0, at_ p 1, at_ p 2) in
  let wx := dot3 (col1 R) v in
  let wy := dot3 (col2 R) v in
  let wz := dot3 (col3 R) v in
  ([wx; wy; wz],
   [[fzero; fopp wz; wy]; [wz; fzero; fopp wx]; [fopp wy; wx; fzero]]).

(** Coordinates of a spatial pose ([Pose3], dimension 6): the rotation
    first, then the translation, so [rotationInterval] is the pair (0, 2). *)
Definition SpatialPose : PoseType F :=
  {| Pose := Pose3; Rot := Rot3;
     MeasDim := 3; PoseDim := 6; RotDim := 3;
     rotation := R3_;
     rotationInterval := λ _, (0, 2);
     compose := Rot3_compose;
     unrotate := Rot3_unrotate |}.

(** A noise model that is null or a vector of sigmas. *)
Definition DiagonalNoise : NoiseModel F :=
  {| SharedNoiseModel := option (Vector F);
     noise_equals := λ a b tol,
       match a, b with
       | None, None => true
       | Some x, Some y => equal_with_abs_tol x y tol
       | _, _ => false
       end |}.
End poses.

Global Arguments Rot2 : clear implicits.
Global Arguments Pose2 : clear implicits.
Global Arguments Rot3 : clear implicits.
Global Arguments Pose3 : clear implicits.

(** ** Exact arithmetic

    Readings with integer values: on them the arithmetic of [double] is
    exact (below 2^53), and it is the arithmetic of [Z]. *)

Definition Z_Scalar : Scalar Z :=
  {| fzero := 0%Z; fadd := Z.add; fsub := Z.sub; fopp := Z.opp;
     fmul := Z.mul; fabs := Z.abs; fleb := Z.leb |}.

(** Division by the norm, exact for a direction along an axis. *)
Definition Z_Normalize : Normalize Z := λ v,
  let z := foldr (λ x acc, x * x + acc)%Z 0%Z v in
  if (0 <? z)%Z then (λ x, x / Z.sqrt z)%Z <$> v else v.

(** The algebra of exact scalars that two of the results below rest on. *)
Class ScalarLaws (F : Type) `{!Scalar F} : Prop := {
  fadd_zero_r x : fadd x fzero = x;
  fsub_diag x : fsub x x = fzero;
  fabs_zero : fabs fzero = fzero;
}.

(** A noise model equals itself at a tolerance that is not negative. *)
Class NoiseModelLaws (F : Type) `{!Scalar F, !NoiseModel F} : Prop := {
  noise_equals_refl m tol : fleb fzero tol = true → noise_equals m m tol = true;
}.

Module Z_examples.
#[export] Existing Instances Z_Scalar Z_Normalize.
#[export] Instance Z_noise : NoiseModel Z := DiagonalNoise.
Local Open Scope Z_scope.

Definition id2 : Rot2 Z := {| c_ := 1; s_ := 0 |}.
Definition quarter_turn : Rot2 Z := {| c_ := 0; s_ := 1 |}.
Definition id3 : Rot3 Z :=
  {| row1 := (1, 0, 0); row2 := (0, 1, 0); row3 := (0, 0, 1) |}%Z.
(** A quarter turn about the z axis. *)
Definition yaw3 : Rot3 Z :=
  {| row1 := (0, -1, 0); row2 := (1, 0, 0); row3 := (0, 0, 1) |}%Z.

Definition pose2 (R : Rot2 Z) (x y : Z) : @Pose Z PlanarPose :=
  {| r2_ := R; t2_ := (x, y) |}.
Definition pose3 (R : Rot3 Z) (x y z : Z) : @Pose Z SpatialPose :=
  {| R3_ := R; t3_ := (x, y, z) |}.

(** A planar factor: field of strength 5 along y, bias (1, 0), a pose
    turned by a quarter, and the reading that this pose explains. *)
Definition planar_factor : MagPoseFactor Z PlanarPose :=
  new (P:=PlanarPose) 7%N [6; 0] 5 [0; 3] [1; 0] (Some [1; 1]) None.

(** The same with the sensor mounted a quarter turn off the body. *)
Definition mounted_factor : MagPoseFactor Z PlanarPose :=
  new (P:=PlanarPose) 7%N [6; 0] 5 [0; 3] [1; 0] (Some [1; 1])
      (Some (pose2 quarter_turn 0 0)).

(** A spatial factor: field of strength 50000 along x, no bias, no mount. *)
Definition spatial_factor : MagPoseFactor Z SpatialPose :=
  new (P:=SpatialPose) 3%N [50000; 0; 0] 50000 [1; 0; 0] [0; 0; 0] None None.
End Z_examples.

(** ** Persistence *)

Section persistence.
Context {F : Type} `{!NoiseModel F} {P : PoseType F}.

(** What [ar & make_nvp(name, x)] does, for the three types of members the
    header hands to an archive: from the archive and the member as it is,
    the archive and the member after the operation.  A saving archive
    leaves the member as it is, a loading archive replaces it; [None] is an
    exception of the archive. *)
Class ARCHIVE (A : Type) := {
  amp_Base :
    A → string → NoiseModelFactor1 F → option (A * NoiseModelFactor1 F);
  amp_Point : A → string → Vector F → option (A * Vector F);
  amp_optional_POSE : A → string → option Pose → option (A * option Pose);
}.

(** [serialize(ar, version)], on the factor [this]; the version is not
    looked at. *)
Definition serialize {A : Type} `{!ARCHIVE A} (ar : A)
    (this : MagPoseFactor F P) (version : N)
    : option (A * MagPoseFactor F P) :=
  '(ar, base) ← amp_Base ar "NoiseModelFactor1" (Base this);
  '(ar, measured) ← amp_Point ar "measured_" (measured_ this);
  '(ar, nM) ← amp_Point ar "nM_" (nM_ this);
  '(ar, bias) ← amp_Point ar "bias_" (bias_ this);
  '(ar, body_P_sensor) ←
    amp_optional_POSE ar "body_P_sensor_" (body_P_sensor_ this);
  Some (ar, {| Base := base; measured_ := measured; nM_ := nM;
               bias_ := bias; body_P_sensor_ := body_P_sensor |}).

(** An archive as the sequence of its named entries. *)
Inductive Entry : Type :=
  | EBase (b : NoiseModelFactor1 F)
  | EPoint (v : Vector F)
  | EMount (m : option Pose).

(** A saving archive appends an entry and leaves the member as it is. *)
Record oarchive : Type := { written : list (string * Entry) }.

Definition save (ar : oarchive) (name : string) (e : Entry) : oarchive :=
  {| written := written ar ++ [(name, e)] |}.

Definition oarchive_ARCHIVE : ARCHIVE oarchive :=
  {| amp_Base ar name b := Some (save ar name (EBase b), b);
     amp_Point ar name v := Some (save ar name (EPoint v), v);
     amp_optional_POSE ar name m := Some (save ar name (EMount m), m) |}.

(** A loading archive takes the next entry, which has to carry the name and
    the type asked for, and hands out its content. *)
Record iarchive : Type := { unread : list (string * Entry) }.

Definition load (ar : iarchive) (name : string)
    : option (iarchive * Entry) :=
  match unread ar with
  | (name', e) :: rest =>
      if String.eqb name' name then Some ({| unread := rest |}, e) else None
  | [] => None
  end.

Definition iarchive_ARCHIVE : ARCHIVE iarchive :=
  {| amp_Base ar name _ :=
       '(ar, e) ← load ar name;
       match e with EBase b => Some (ar, b) | _ => None end;
     amp_Point ar name _ :=
       '(ar, e) ← load ar name;
       match e with EPoint v => Some (ar, v) | _ => None end;
     amp_optional_POSE ar name _ :=
       '(ar, e) ← load ar name;
       match e with EMount m => Some (ar, m) | _ => None end |}.
End persistence.

Global Arguments Entry F {_} P.
Global Arguments oarchive F {_} P.
Global Arguments iarchive F {_} P.

(** ** More exact arithmetic, and a pose type that does not fit *)

(** Subtraction of exact scalars tells two scalars apart. *)
Class ScalarExact (F : Type) `{!Scalar F} : Prop := {
  fsub_eq_zero a b : fsub a b = fzero → a = b;
}.

(** A planar pose type whose [rotationInterval] points past the last
    coordinate of the pose: the header compiles with it all the same. *)
Definition MisplacedPose {F : Type} `{!Scalar F} : PoseType F :=
  {| Pose := Pose2 F; Rot := Rot2 F;
     MeasDim := 2; PoseDim := 3; RotDim := 1;
     rotation := r2_;
     rotationInterval := λ _, (3, 3);
     compose := Rot2_compose;
     unrotate := Rot2_unrotate |}.

Module Z_misplaced.
Import Z_examples.

(** [planar_factor] seen through the pose type that does not fit. *)
Definition misplaced_factor : MagPoseFactor Z MisplacedPose :=
  new (P:=MisplacedPose) 7%N [6; 0]%Z 5%Z [0; 3]%Z [1; 0]%Z (Some [1; 1]%Z) None.
End Z_misplaced.

(** * Properties *)

(** ** Vectors, shapes and blocks *)

Section linear_algebra_facts.
Context {F : Type} `{!Scalar F}.
Implicit Types (u v : Vector F) (B M : Matrix F).

Lemma has_shape_spec r c M :
  has_shape r c M = true ↔ length M = r ∧ Forall (λ row, length row = c) M.
Proof.
  unfold has_shape. rewrite andb_true_iff, Nat.eqb_eq, forallb_forall.
  rewrite Forall_forall. split; intros [Hr Hc]; split; try done.
  - intros row Hin%list_elem_of_In. by apply Nat.eqb_eq, Hc.
  - intros row Hin%list_elem_of_In. by apply Nat.eqb_eq, Hc.
Qed.

Lemma has_shape_row r c M i row :
  has_shape r c M = true → M !! i = Some row → length row = c.
Proof.
  intros [_ Hc]%has_shape_spec Hi.
  by apply (Forall_lookup_1 _ _ _ _ Hc Hi).
Qed.

Lemma mcols_Matrix_Zero r c : 0 < r → mcols (Matrix_Zero r c) = c.
Proof.
  destruct r as [|r]; [lia|]. intros _. simpl. apply length_replicate.
Qed.

Lemma splice_row_vzero j0 n row :
  j0 + length row ≤ n →
  splice_row j0 row (vzero n)
  = vzero j0 ++ row ++ vzero (n - (j0 + length row)).
Proof.
  intros Hfit. unfold splice_row, vzero.
  rewrite take_replicate, drop_replicate. by rewrite Nat.min_l by lia.
Qed.

(** Writing a block of full height into a fresh zero matrix succeeds and
    gives the zero-padded block. *)
Lemma block_assign_Zero r n j0 c B :
  0 < r → j0 + c ≤ n → has_shape r c B = true →
  block_assign (Matrix_Zero r n) 0 j0 r c B = Some (zero_padded j0 n B).
Proof.
  intros Hr Hfit HB. unfold block_assign.
  rewrite HB, mcols_Matrix_Zero by done.
  unfold mrows, Matrix_Zero at 1. rewrite length_replicate.
  replace (0 + r <=? r) with true by (symmetry; apply Nat.leb_le; lia).
  replace (j0 + c <=? n) with true by (symmetry; by apply Nat.leb_le).
  simpl. f_equal. rewrite drop_0.
  apply has_shape_spec in HB as [Hlen Hrows].
  rewrite (take_ge (Matrix_Zero r n)), (drop_ge (Matrix_Zero r n));
    [|unfold Matrix_Zero; rewrite length_replicate; lia..].
  rewrite app_nil_r. unfold Matrix_Zero.
  rewrite zip_with_replicate_r_eq by done.
  unfold zero_padded. apply Forall_fmap_ext_1.
  eapply Forall_impl; [exact Hrows|]. intros row Hrow. simpl in *.
  apply splice_row_vzero. lia.
Qed.

Lemma zero_padded_shape r c j0 n B :
  j0 + c ≤ n → has_shape r c B = true →
  has_shape r n (zero_padded j0 n B) = true.
Proof.
  intros Hfit [Hlen Hrows]%has_shape_spec. apply has_shape_spec.
  unfold zero_padded. split; [by rewrite length_fmap|].
  apply Forall_fmap. eapply Forall_impl; [exact Hrows|].
  intros row Hrow. simpl in *. unfold vzero.
  rewrite !length_app, !length_replicate. lia.
Qed.

(** The coefficients of a zero-padded block: the block inside its columns,
    zero outside. *)
Lemma coeff_zero_padded r c j0 n B i j :
  j0 + c ≤ n → has_shape r c B = true → i < r → j < n →
  coeff (zero_padded j0 n B) i j
  = if (j0 <=? j) && (j <? j0 + c) then coeff B i (j - j0) else Some fzero.
Proof.
  intros Hfit HB Hi Hj. unfold coeff, zero_padded.
  rewrite list_lookup_fmap.
  pose proof HB as [Hlen _]%has_shape_spec.
  destruct (lookup_lt_is_Some_2 B i) as [row Hrow]; [lia|].
  rewrite Hrow. simpl.
  pose proof (has_shape_row _ _ _ _ _ HB Hrow) as Hc. unfold vzero.
  destruct (Nat.leb_spec j0 j) as [Hle|Hlt]; simpl.
  - rewrite lookup_app_r by (rewrite length_replicate; lia).
    rewrite length_replicate.
    destruct (Nat.ltb_spec j (j0 + c)) as [Hin|Hout].
    + by rewrite lookup_app_l by lia.
    + rewrite lookup_app_r by lia. apply lookup_replicate_2. lia.
  - rewrite lookup_app_l by (rewrite length_replicate; lia).
    by apply lookup_replicate_2.
Qed.

Lemma equal_with_abs_tol_spec u v tol :
  equal_with_abs_tol u v tol = true ↔ within_abs_tol u v tol.
Proof.
  unfold equal_with_abs_tol, within_abs_tol.
  rewrite andb_true_iff, Nat.eqb_eq, forallb_forall.
  split; intros [Hlen Hall]; (split; [done|]).
  - intros i a b Ha Hb. apply (Hall (a, b)), list_elem_of_In.
    apply list_elem_of_lookup. exists i.
    apply lookup_zip_with_Some. eauto.
  - intros [a b] Hin%list_elem_of_In.
    apply list_elem_of_lookup in Hin as [i Hi].
    apply lookup_zip_with_Some in Hi as (a' & b' & [= <- <-] & Ha & Hb).
    by eapply Hall.
Qed.

Lemma vsub_diag `{!ScalarLaws F} v : vsub v v = vzero (length v).
Proof.
  unfold vsub, vzero. rewrite zip_with_diag.
  induction v as [|x v IH]; [done|]. csimpl. by rewrite fsub_diag, IH.
Qed.

Lemma vadd_vzero `{!ScalarLaws F} v : vadd v (vzero (length v)) = v.
Proof.
  unfold vadd, vzero. rewrite zip_with_replicate_r_eq by done.
  induction v as [|x v IH]; [done|]. csimpl. f_equal; [|exact IH].
  apply fadd_zero_r.
Qed.

(** At a tolerance that is not negative, a vector of exact scalars is
    within tolerance of itself. *)
Lemma equal_with_abs_tol_refl `{!ScalarLaws F} v tol :
  fleb fzero tol = true → equal_with_abs_tol v v tol = true.
Proof.
  intros Htol. apply equal_with_abs_tol_spec. split; [done|].
  intros i a b Ha Hb. assert (a = b) as -> by congruence.
  by rewrite fsub_diag, fabs_zero.
Qed.

(** At a tolerance below zero, a vector with a coefficient is not. *)
Lemma equal_with_abs_tol_negative `{!ScalarLaws F} v tol :
  v ≠ [] → fleb fzero tol = false → equal_with_abs_tol v v tol = false.
Proof.
  intros Hv Htol. destruct v as [|x v]; [done|].
  unfold equal_with_abs_tol. simpl.
  by rewrite fsub_diag, fabs_zero, Htol, andb_false_r.
Qed.
End linear_algebra_facts.

(** ** The factor *)

Section factor_facts.
Context {F : Type} `{!Scalar F, !Normalize F, !NoiseModel F}.
Context {P : PoseType F} {Other : Type}.
Implicit Types (f g e : MagPoseFactor F P) (nPb : Pose) (tol : F).
Implicit Types (expected : NonlinearFactor F P Other).
Implicit Types (H : option (Matrix F)).

(** The predicted reading and the Jacobian of [unrotate] at the rotation
    [evaluateError] uses. *)
Local Abbreviation hx f nPb := (vadd (unrotate (nRs f nPb) (nM_ f)).1 (bias_ f)).
Local Abbreviation H_rot f nPb := ((unrotate (nRs f nPb) (nM_ f)).2).
Local Abbreviation rot0 nPb := ((rotationInterval nPb).1).

Lemma copy_id f : copy f = f.
Proof. by destruct f as [[??] ????]. Qed.

(** Without a Jacobian slot no assertion is involved. *)
Lemma evaluateError_None f nPb :
  evaluateError f nPb None = Some (vsub (hx f nPb) (measured_ f), None).
Proof. unfold evaluateError. by destruct (unrotate _ _). Qed.

(** With one, the block assignment is within bounds for a lawful pose
    type, and the call returns. *)
Lemma evaluateError_Some `{!PoseLaws P} f nPb (J0 : Matrix F) :
  evaluateError f nPb (Some J0)
  = Some (vsub (hx f nPb) (measured_ f),
          Some (zero_padded (rot0 nPb) PoseDim (H_rot f nPb))).
Proof.
  unfold evaluateError.
  pose proof (unrotate_shape (nRs f nPb) (nM_ f)) as Hshape.
  destruct (unrotate _ _) as [q Hr]. simpl in *.
  rewrite block_assign_Zero;
    [done|apply MeasDim_pos|apply rotation_fits|exact Hshape].
Qed.

Lemma evaluateError_returns `{!PoseLaws P} f nPb H :
  evaluateError f nPb H
  = Some (vsub (hx f nPb) (measured_ f),
          (λ _, zero_padded (rot0 nPb) PoseDim (H_rot f nPb)) <$> H).
Proof.
  destruct H as [J0|]; [apply evaluateError_Some|apply evaluateError_None].
Qed.

Lemma obtained_from_eq f g : obtained_from (Other:=Other) f g → g = f.
Proof.
  induction 1 as [|g c h _ IH Hin]; [done|]. subst g.
  destruct c; simpl in Hin; rewrite ?copy_id in Hin;
    repeat (apply elem_of_cons in Hin as [->|Hin]; [done|]);
    by apply elem_of_nil in Hin.
Qed.

Lemma Base_equals_spec (b e : NoiseModelFactor1 F) tol :
  Base_equals b e tol = true
  ↔ key_ b = key_ e ∧ noise_equals (noiseModel_ b) (noiseModel_ e) tol = true.
Proof. unfold Base_equals. by rewrite andb_true_iff, N.eqb_eq. Qed.

Lemma equals_same_but_mount f f' e e' tol :
  same_but_mount f f' → same_but_mount e e' →
  equals (Other:=Other) f (IsMagPoseFactor e) tol
  = equals (Other:=Other) f' (IsMagPoseFactor e') tol.
Proof.
  intros (Hb & Hm & Hn & Hbi) (Hb' & Hm' & Hn' & Hbi').
  unfold equals. simpl. by rewrite Hb, Hm, Hn, Hbi, Hb', Hm', Hn', Hbi'.
Qed.

(** A factor of exact scalars equals itself at a tolerance that is not
    negative. *)
Lemma equals_refl `{!ScalarLaws F, !NoiseModelLaws F} f tol :
  fleb fzero tol = true →
  equals (Other:=Other) f (IsMagPoseFactor f) tol = true.
Proof.
  intros Htol. unfold equals, Base_equals. simpl.
  rewrite N.eqb_refl, noise_equals_refl by done.
  by rewrite !equal_with_abs_tol_refl.
Qed.


(** C2, amended. For every pose, when a Jacobian is requested,
    [evaluateError] produces a MeasDim x PoseDim matrix that is zero
    everywhere except that the rotation Jacobian [Hrot] from [unrotate], a
    MeasDim x RotDim matrix, is copied into the RotDim columns that start
    at the first index of the pose's [rotationInterval]; all other columns
    are zero. *)
Theorem evaluateError_jacobian_block `{!PoseLaws P} f nPb (J0 : Matrix F) :
  let Hrot := (unrotate (nRs f nPb) (nM_ f)).2 in
  let rot0 := (rotationInterval nPb).1 in
  ∃ r J,
    evaluateError f nPb (Some J0) = Some (r, Some J)
    ∧ has_shape MeasDim PoseDim J = true
    ∧ has_shape MeasDim RotDim Hrot = true
    ∧ ∀ i j, i < MeasDim → j < PoseDim →
        coeff J i j
        = if (rot0 <=? j) && (j <? rot0 + RotDim)
          then coeff Hrot i (j - rot0) else Some fzero.
Proof.
  simpl. eexists _, _. split; [apply evaluateError_Some|].
  pose proof (unrotate_shape (nRs f nPb) (nM_ f)) as Hshape.
  pose proof (rotation_fits nPb) as Hfit.
  split; [by eapply zero_padded_shape|]. split; [done|].
  intros i j Hi Hj. by eapply coeff_zero_padded.
Qed.

(** C3. For every pose [nPb], the rotation [R] that [evaluateError] hands
    to [unrotate], for the residual and for the Jacobian alike, is
    [nPb.rotation()] composed with the rotation of the sensor mount when
    there is a mount, and [nPb.rotation()] alone when there is none. *)
Theorem evaluateError_rotation `{!PoseLaws P} f nPb H :
  let R := match body_P_sensor_ f with
           | Some bPs => compose (rotation nPb) (rotation bPs)
           | None => rotation nPb
           end in
  evaluateError f nPb H
  = Some (vsub (vadd (unrotate R (nM_ f)).1 (bias_ f)) (measured_ f),
          (λ _, zero_padded (rotationInterval nPb).1 PoseDim
                  (unrotate R (nM_ f)).2) <$> H).
Proof. simpl. by rewrite evaluateError_returns. Qed.

(** C4. For every factor and every two poses with the same rotation,
    whatever their translations, [evaluateError] returns the same
    residual, and in the Jacobian of either pose every column outside the
    rotation columns is exactly zero. *)
Theorem evaluateError_translation_invariant `{!PoseLaws P}
    f (nPb nPb' : Pose) (J0 : Matrix F) :
  rotation nPb = rotation nPb' →
  ∃ r J J',
    evaluateError f nPb None = Some (r, None)
    ∧ evaluateError f nPb' None = Some (r, None)
    ∧ evaluateError f nPb (Some J0) = Some (r, Some J)
    ∧ evaluateError f nPb' (Some J0) = Some (r, Some J')
    ∧ ∀ i j, i < MeasDim → j < PoseDim →
        (¬ ((rotationInterval nPb).1 ≤ j < (rotationInterval nPb).1 + RotDim)
         → coeff J i j = Some fzero)
        ∧ (¬ ((rotationInterval nPb').1 ≤ j
              < (rotationInterval nPb').1 + RotDim)
           → coeff J' i j = Some fzero).
Proof.
  intros Hrot. eexists _, _, _.
  rewrite !evaluateError_None, !evaluateError_Some.
  assert (nRs f nPb' = nRs f nPb) as ->.
  { unfold nRs. by rewrite Hrot. }
  do 4 (split; [reflexivity|]).
  intros i j Hi Hj.
  pose proof (unrotate_shape (nRs f nPb) (nM_ f)) as Hshape.
  split; intros Hout.
  - rewrite (coeff_zero_padded MeasDim RotDim);
      [|apply rotation_fits|done..].
    destruct (Nat.leb_spec (rotationInterval nPb).1 j); [|done].
    destruct (Nat.ltb_spec j ((rotationInterval nPb).1 + RotDim)); [|done].
    lia.
  - rewrite (coeff_zero_padded MeasDim RotDim);
      [|apply rotation_fits|done..].
    destruct (Nat.leb_spec (rotationInterval nPb').1 j); [|done].
    destruct (Nat.ltb_spec j ((rotationInterval nPb').1 + RotDim)); [|done].
    lia.
Qed.





(** C9. For every factor and every pose, [evaluateError] returns the same
    residual whether or not the Jacobian slot is supplied. *)
Theorem evaluateError_residual_whatever_slot `{!PoseLaws P}
    f nPb (J0 : Matrix F) :
  ∃ r, fst <$> evaluateError f nPb None = Some r
     ∧ fst <$> evaluateError f nPb (Some J0) = Some r.
Proof.
  eexists. by rewrite evaluateError_None, evaluateError_Some.
Qed.

(** C10. For every factor, every argument that is not a MagPoseFactor of
    the same pose type and every tolerance, [equals] returns false: the
    guard on the dynamic cast makes the comparison total. *)
Theorem equals_other_type f expected tol :
  (∀ e, expected ≠ IsMagPoseFactor e) → equals f expected tol = false.
Proof.
  intros Hother. destruct expected as [e|o]; [|done]. by destruct (Hother e).
Qed.
End factor_facts.

(** ** The instantiations are lawful *)

Lemma PlanarPose_laws {F : Type} `{!Scalar F} : PoseLaws (PlanarPose (F:=F)).
Proof. split; simpl; intros; (reflexivity || lia). Qed.

Lemma SpatialPose_laws {F : Type} `{!Scalar F} : PoseLaws (SpatialPose (F:=F)).
Proof. split; simpl; intros; (reflexivity || lia). Qed.

Lemma Z_ScalarLaws : ScalarLaws Z (Scalar0:=Z_Scalar).
Proof. split; simpl; intros; lia. Qed.

Lemma DiagonalNoise_laws {F : Type} `{!Scalar F, !ScalarLaws F} :
  NoiseModelLaws F (NoiseModel0:=DiagonalNoise).
Proof.
  split. intros [sigmas|] tol Htol; simpl; [|done].
  by apply equal_with_abs_tol_refl.
Qed.

(** ** The properties at concrete factors and poses *)

Section at_concrete_inputs.
Import Z_examples.
Local Open Scope Z_scope.

Local Existing Instances Z_ScalarLaws PlanarPose_laws SpatialPose_laws.
Local Existing Instance DiagonalNoise_laws.

(** A direction that is not of unit length is accepted and normalized. *)
Example nM_planar_factor : nM_ planar_factor = [0; 5].
Proof. reflexivity. Qed.

(** The spatial scenario of the spec: the field along x, the identity
    rotation, some translation, the matching reading. *)
Example spatial_scenario :
  evaluateError spatial_factor (pose3 id3 4 9 1) (Some [])
  = Some ([0; 0; 0],
          Some [[0; 0; 0; 0; 0; 0];
                [0; 0; -50000; 0; 0; 0];
                [0; 50000; 0; 0; 0; 0]]).
Proof. reflexivity. Qed.


(** C2, counterexample: on a planar pose a reading has two rows and the
    rotation has one coordinate (MeasDim = 2, RotDim = 1, PoseDim = 3), so
    the Jacobian of [unrotate] that is copied, into column 2, is 2 x 1 and
    not RotDim x RotDim. *)
Lemma jacobian_block_not_square :
  let f := planar_factor in
  let nPb := pose2 quarter_turn 4 9 in
  evaluateError f nPb (Some []) = Some ([0; 0], Some [[0; 0; 0]; [0; 0; -5]])
  ∧ (unrotate (nRs f nPb) (nM_ f)).2 = [[0]; [-5]]
  ∧ @RotDim Z PlanarPose = 1%nat
  ∧ has_shape (@RotDim Z PlanarPose) (@RotDim Z PlanarPose)
      (unrotate (nRs f nPb) (nM_ f)).2 = false.
Proof. repeat split. Qed.

(** C2 as amended, at the same factor and pose. *)
Lemma evaluateError_jacobian_block_witness :
  let f := planar_factor in
  let nPb := pose2 quarter_turn 4 9 in
  let Hrot := (unrotate (nRs f nPb) (nM_ f)).2 in
  ∃ r J,
    evaluateError f nPb (Some []) = Some (r, Some J)
    ∧ has_shape 2 3 J = true
    ∧ has_shape 2 1 Hrot = true
    ∧ ∀ i j, (i < 2)%nat → (j < 3)%nat →
        coeff J i j
        = if (2 <=? j)%nat && (j <? 2 + 1)%nat
          then coeff Hrot i (j - 2) else Some 0.
Proof.
  exact (evaluateError_jacobian_block (P:=PlanarPose)
           planar_factor (pose2 quarter_turn 4 9) []).
Defined.

(** C3, with the sensor mounted a quarter turn off the body: the identity
    pose is rotated like the quarter turn without a mount. *)
Lemma evaluateError_rotation_witness :
  evaluateError mounted_factor (pose2 id2 4 9) (Some [])
  = Some ([0; 0], Some [[0; 0; 0]; [0; 0; -5]]).
Proof.
  exact (evaluateError_rotation (P:=PlanarPose)
           mounted_factor (pose2 id2 4 9) (Some [])).
Defined.

(** C4, at two spatial poses with the same rotation: columns 3 to 5, those
    of the translation, are zero. *)
Lemma evaluateError_translation_invariant_witness :
  let nPb := pose3 yaw3 4 9 1 in
  let nPb' := pose3 yaw3 (-2) 0 7 in
  rotation nPb = rotation nPb'
  ∧ ∃ r J J',
      evaluateError spatial_factor nPb None = Some (r, None)
      ∧ evaluateError spatial_factor nPb' None = Some (r, None)
      ∧ evaluateError spatial_factor nPb (Some []) = Some (r, Some J)
      ∧ evaluateError spatial_factor nPb' (Some []) = Some (r, Some J')
      ∧ ∀ i j, (i < 3)%nat → (j < 6)%nat →
          (¬ (0 ≤ j < 0 + 3)%nat → coeff J i j = Some 0)
          ∧ (¬ (0 ≤ j < 0 + 3)%nat → coeff J' i j = Some 0).
Proof.
  split; [reflexivity|].
  exact (evaluateError_translation_invariant (P:=SpatialPose)
           spatial_factor (pose3 yaw3 4 9 1) (pose3 yaw3 (-2) 0 7) []
           eq_refl).
Defined.






(** C9, at a planar factor and pose. *)
Lemma evaluateError_residual_whatever_slot_witness :
  ∃ r, fst <$> evaluateError planar_factor (pose2 id2 4 9) None = Some r
     ∧ fst <$> evaluateError planar_factor (pose2 id2 4 9) (Some []) = Some r.
Proof.
  exact (evaluateError_residual_whatever_slot (P:=PlanarPose)
           planar_factor (pose2 id2 4 9) []).
Defined.

(** C10, at a factor of another class, here the one object of [unit]. *)
Lemma equals_other_type_witness :
  (∀ e, IsOther tt ≠ IsMagPoseFactor (P:=PlanarPose) e)
  ∧ equals planar_factor (IsOther tt) 0 = false.
Proof.
  assert (∀ e, IsOther tt ≠ IsMagPoseFactor (P:=PlanarPose) e) as Hother
    by (intros e; discriminate).
  split; [exact Hother|].
  exact (equals_other_type planar_factor (IsOther tt) 0 Hother).
Defined.
End at_concrete_inputs.

(** * More of the header *)

(** ** Vectors of one length *)

Section same_length_facts.
Context {F : Type} `{!Scalar F}.
Implicit Types (u v q b d m : Vector F).

Lemma length_vadd u v : length (vadd u v) = length u `min` length v.
Proof. apply length_zip_with. Qed.

(** Only equal vectors of exact scalars have the zero difference. *)
Lemma vsub_eq_vzero `{!ScalarExact F} u v :
  length u = length v → vsub u v = vzero (length u) → u = v.
Proof.
  revert v. induction u as [|x u IH]; intros [|y v] Hlen Hzero; try done.
  simpl in *. injection Hzero as Hx Hrest.
  f_equal; [by apply fsub_eq_zero|]. apply IH; [lia|done].
Qed.

End same_length_facts.

(** ** The factor, continued *)

Section factor_more_facts.
Context {F : Type} `{!Scalar F, !Normalize F, !NoiseModel F}.
Context {P : PoseType F} {Other : Type}.
Implicit Types (f g e : MagPoseFactor F P) (nPb : Pose) (tol : F).
Implicit Types (expected : NonlinearFactor F P Other).
Implicit Types (H : option (Matrix F)).




(** X7. Of the sensor mount only the rotation counts, and of the base
    class nothing: two factors with the same reading, local field and bias
    whose mounts have the same rotation evaluate alike, whatever the
    translations of the mounts, the keys and the noise models. *)
Theorem evaluateError_mount_rotation_only f g (bPs bPs' : Pose) nPb H :
  measured_ f = measured_ g → nM_ f = nM_ g → bias_ f = bias_ g →
  body_P_sensor_ f = Some bPs → body_P_sensor_ g = Some bPs' →
  rotation bPs = rotation bPs' →
  evaluateError f nPb H = evaluateError g nPb H.
Proof.
  intros Hmeas HnM Hbias Hf Hg Hrot. unfold evaluateError, nRs.
  by rewrite Hmeas, HnM, Hbias, Hf, Hg, Hrot.
Qed.


End factor_more_facts.

Lemma Z_ScalarExact : ScalarExact Z (Scalar0:=Z_Scalar).
Proof. split; simpl; intros; lia. Qed.

(** ** The further properties at concrete factors and poses *)

Section more_at_concrete_inputs.
Import Z_examples Z_misplaced.
Local Open Scope Z_scope.

Local Existing Instances Z_ScalarLaws Z_ScalarExact.
Local Existing Instances PlanarPose_laws SpatialPose_laws.

(** With the rotation columns declared past the end of the pose, a call
    without a Jacobian returns and a call with one does not. *)
Example misplaced_evaluateError :
  evaluateError misplaced_factor (pose2 quarter_turn 4 9) None
  = Some ([0; 0], None)
  ∧ evaluateError misplaced_factor (pose2 quarter_turn 4 9) (Some []) = None.
Proof. by split. Qed.



(** X7, at two mounts with the same rotation and other translations. *)
Lemma evaluateError_mount_rotation_only_witness :
  let g := new (P:=PlanarPose) 9%N [6; 0] 5 [0; 3] [1; 0] None
               (Some (pose2 quarter_turn 5 (-8))) in
  let nPb := pose2 id2 4 9 in
  (measured_ mounted_factor = measured_ g ∧ nM_ mounted_factor = nM_ g
   ∧ bias_ mounted_factor = bias_ g
   ∧ body_P_sensor_ mounted_factor = Some (pose2 quarter_turn 0 0)
   ∧ body_P_sensor_ g = Some (pose2 quarter_turn 5 (-8))
   ∧ rotation (pose2 quarter_turn 0 0) = rotation (pose2 quarter_turn 5 (-8)))
  ∧ evaluateError mounted_factor nPb (Some [])
    = evaluateError g nPb (Some []).
Proof.
  split; [by repeat split|].
  exact (evaluateError_mount_rotation_only (P:=PlanarPose) mounted_factor
           (new (P:=PlanarPose) 9%N [6; 0] 5 [0; 3] [1; 0] None
                (Some (pose2 quarter_turn 5 (-8))))
           (pose2 quarter_turn 0 0) (pose2 quarter_turn 5 (-8))
           (pose2 id2 4 9) (Some [])
           eq_refl eq_refl eq_refl eq_refl eq_refl eq_refl).
Defined.

End more_at_concrete_inputs.
